(** * lsl_lib_version.h: the library-information string

    The header [packages/liblsl/src/include/lsl_lib_version.h] consists of
    preprocessor directives only:
<<
    #ifndef LSL_LIBRARY_INFO_STR
    #define MSTR_EXPAND(tok) #tok
    #define MSTR(tok) MSTR_EXPAND(tok)

    #define LSL_LIBTYPE_DART link:SHARED
    // Concatenate strings without space, using proper formatting of /
    #define LSL_LIBRARY_INFO_STR MSTR(LSL_VERSION_INFO) "/" MSTR(LSL_LIBTYPE_DART)
    #endif
>>
    Its meaning is what the C preprocessor makes of it, so the development
    embeds the directives as data and gives them the semantics of translation
    phases 4 to 6: a macro table updated by [#define] and [#undef], the
    conditional [#ifndef], macro replacement with argument pre-expansion,
    the [#] operator, rescanning, and the concatenation of adjacent string
    literals. *)

From Stdlib Require Import String Ascii List Bool Arith Lia.
From stdpp Require Import base option list strings gmap.

Open Scope string_scope.
Open Scope list_scope.

(** ** Preprocessing tokens *)

Inductive token_kind :=
| Identifier
| PPNumber
| StringLiteral
| CharConstant
| Punctuator
| OtherChar.

(** A token carries its spelling, whether white space preceded it in the
    source line it comes from, and the names of the macros whose replacement
    produced it (these are not replaced again during rescanning). *)
Record pp_token := Token {
  tk_kind : token_kind;
  tk_spelling : string;
  tk_ws : bool;
  tk_hide : list string
}.

Definition ident (s : string) : pp_token := Token Identifier s false [].
Definition number (s : string) : pp_token := Token PPNumber s false [].
Definition punct (s : string) : pp_token := Token Punctuator s false [].
Definition spaced (t : pp_token) : pp_token :=
  Token (tk_kind t) (tk_spelling t) true (tk_hide t).

Definition dquote : ascii := "034"%char.
Definition backslash : ascii := "092"%char.

Definition quoted (s : string) : string :=
  String dquote (s +:+ String dquote EmptyString).

Definition strlit (s : string) : pp_token :=
  Token StringLiteral (quoted s) false [].

Definition is_ident (t : pp_token) : bool :=
  match tk_kind t with Identifier => true | _ => false end.

Definition is_punct (s : string) (t : pp_token) : bool :=
  match tk_kind t with
  | Punctuator => String.eqb (tk_spelling t) s
  | _ => false
  end.

Definition set_ws (w : bool) (t : pp_token) : pp_token :=
  Token (tk_kind t) (tk_spelling t) w (tk_hide t).

Definition add_hide (hs : list string) (t : pp_token) : pp_token :=
  Token (tk_kind t) (tk_spelling t) (tk_ws t) (list_union hs (tk_hide t)).

(** The first token of a replacement takes the spacing of the token it
    replaces. *)
Definition inherit_ws (w : bool) (ts : list pp_token) : list pp_token :=
  match ts with
  | [] => []
  | t :: rest => set_ws w t :: rest
  end.

(** White space before a name that is replaced by nothing is not lost: the
    token that follows counts as preceded by white space, so that
    [1 EMPTY+2] with an empty [EMPTY] is stringified as ["1 +2"]. *)
Definition pass_ws (w : bool) (ts : list pp_token) : list pp_token :=
  match ts with
  | [] => []
  | t :: rest => set_ws (w || tk_ws t) t :: rest
  end.

(** The tokens [ts] put in place of a token whose spacing was [w], in front
    of [rest]. *)
Definition splice (w : bool) (ts rest : list pp_token) : list pp_token :=
  match ts with
  | [] => pass_ws w rest
  | _ :: _ => inherit_ws w ts ++ rest
  end.

(** ** Macro definitions and errors *)

Inductive macro_def :=
| ObjectLike (body : list pp_token)
| FunctionLike (params : list string) (body : list pp_token).

Inductive pp_error :=
| UnterminatedArguments (name : string)
| ArgumentCount (name : string) (given expected : nat)
| StrayStringify
| PasteNotModelled
| OutOfFuel
| NotAStringConstant.

Inductive result (A : Type) :=
| Ok (a : A)
| Err (e : pp_error).
Arguments Ok {A} a.
Arguments Err {A} e.

Definition bind {A B} (r : result A) (k : A -> result B) : result B :=
  match r with
  | Ok a => k a
  | Err e => Err e
  end.

Notation "'do' x <- r ; k" := (bind r (fun x => k))
  (at level 10, x name, r at level 100, k at level 200).

(** ** The [#] operator

    The spelling of each token of the argument, a single space where white
    space separated two tokens, and a backslash before every double quote and
    backslash of a string literal or character constant. *)

Definition escape_char (c : ascii) : string :=
  if (Ascii.eqb c dquote || Ascii.eqb c backslash)%bool
  then String backslash (String c EmptyString)
  else String c EmptyString.

Fixpoint escape (s : string) : string :=
  match s with
  | EmptyString => EmptyString
  | String c rest => escape_char c +:+ escape rest
  end.

Definition stringify_token (t : pp_token) : string :=
  match tk_kind t with
  | StringLiteral | CharConstant => escape (tk_spelling t)
  | _ => tk_spelling t
  end.

Fixpoint stringify_text (first : bool) (ts : list pp_token) : string :=
  match ts with
  | [] => EmptyString
  | t :: rest =>
      (if (negb first && tk_ws t)%bool then " " else EmptyString)
        +:+ stringify_token t +:+ stringify_text false rest
  end.

Definition stringify (w : bool) (arg : list pp_token) : pp_token :=
  Token StringLiteral (quoted (stringify_text true arg)) w [].

(** ** Macro invocations *)

Definition push_token (t : pp_token) (args : list (list pp_token))
  : list (list pp_token) :=
  match args with
  | [] => [[t]]
  | a :: more => (t :: a) :: more
  end.

(** The tokens after the opening parenthesis of an invocation, cut at the
    commas outside nested parentheses, up to the matching closing
    parenthesis; [None] when the line ends first. *)
Fixpoint collect_args (depth : nat) (ts : list pp_token)
  : option (list (list pp_token) * pp_token * list pp_token) :=
  match ts with
  | [] => None
  | t :: rest =>
      if (is_punct ")" t && Nat.eqb depth 0)%bool then Some ([[]], t, rest)
      else
        let depth' :=
          if is_punct "(" t then S depth
          else if is_punct ")" t then Nat.pred depth
          else depth in
        match collect_args depth' rest with
        | None => None
        | Some (args, rp, rest') =>
            if (is_punct "," t && Nat.eqb depth 0)%bool
            then Some ([] :: args, rp, rest')
            else Some (push_token t args, rp, rest')
        end
  end.

(** A macro without parameters is invoked as [f()]; any other macro takes as
    many arguments as it has parameters, an argument being possibly empty. *)
Definition arity_ok (params : list string) (args : list (list pp_token)) : bool :=
  match params with
  | [] => match args with [ [] ] => true | _ => false end
  | _ => Nat.eqb (length args) (length params)
  end.

Fixpoint lookup_param (p : string) (bindings : list (string * list pp_token))
  : option (list pp_token) :=
  match bindings with
  | [] => None
  | (q, arg) :: more => if String.eqb p q then Some arg else lookup_param p more
  end.

Definition param_arg (bindings : list (string * list pp_token)) (t : pp_token)
  : option (list pp_token) :=
  if is_ident t then lookup_param (tk_spelling t) bindings else None.

(** Substitution of the arguments in the replacement list of a function-like
    macro: [# p] is the stringified argument as written, a parameter elsewhere
    is the argument completely macro-replaced ([expand_arg]). *)
Fixpoint substitute (expand_arg : list pp_token -> result (list pp_token))
    (bindings : list (string * list pp_token)) (body : list pp_token)
  : result (list pp_token) :=
  match body with
  | [] => Ok []
  | t :: rest =>
      if is_punct "#" t then
        match rest with
        | [] => Err StrayStringify
        | p :: rest' =>
            match param_arg bindings p with
            | None => Err StrayStringify
            | Some arg =>
                do r <- substitute expand_arg bindings rest';
                Ok (stringify (tk_ws t) arg :: r)
            end
        end
      else
        match param_arg bindings t with
        | Some arg =>
            do a <- expand_arg arg;
            do r <- substitute expand_arg bindings rest;
            Ok (splice (tk_ws t) a r)
        | None =>
            do r <- substitute expand_arg bindings rest;
            Ok (t :: r)
        end
  end.

Definition has_paste (body : list pp_token) : bool :=
  existsb (is_punct "##") body.

(** An identifier is open to replacement unless it came out of a replacement
    of the macro of the same name. *)
Definition replaceable (t : pp_token) : bool :=
  is_ident t && negb (bool_decide (tk_spelling t ∈ tk_hide t)).

(** The tokens of a non-empty replacement as they are rescanned: each
    remembers the macros it came from, and the first takes the spacing of the
    name it replaces. *)
Definition rescanned (w : bool) (hs : list string) (ts : list pp_token)
  : list pp_token :=
  inherit_ws w (map (add_hide hs) ts).

(** ** Macro replacement with rescanning

    A replaceable identifier that names an object-like macro is replaced by
    the macro's replacement list; one that names a function-like macro and is
    followed by an opening parenthesis is replaced by the list with the
    arguments substituted.  The result is rescanned together with the rest of
    the line.  Each replacement uses up one unit of [fuel]; passing over a
    token that is not replaced costs nothing.  The paste operator does not
    occur in the header and is not modelled: a replacement list that holds it
    is refused with [PasteNotModelled].  Predefined macros are entries of the
    table like any other. *)
Fixpoint expand (fuel : nat) (m : gmap string macro_def) (ts : list pp_token)
    {struct fuel} : result (list pp_token) :=
  (fix scan (ts : list pp_token) : result (list pp_token) :=
     match ts with
     | [] => Ok []
     | t :: rest =>
         if replaceable t then
           match m !! tk_spelling t with
           | None => do r <- scan rest; Ok (t :: r)
           | Some (ObjectLike body) =>
               match fuel with
               | 0 => Err OutOfFuel
               | S f =>
                   if has_paste body then Err PasteNotModelled
                   else
                     expand f m
                       (splice (tk_ws t)
                          (map (add_hide (tk_spelling t :: tk_hide t)) body)
                          rest)
               end
           | Some (FunctionLike params body) =>
               match rest with
               | [] => Ok [t]
               | lp :: rest1 =>
                   if is_punct "(" lp then
                     match collect_args 0 rest1 with
                     | None => Err (UnterminatedArguments (tk_spelling t))
                     | Some (args, rp, rest2) =>
                         if arity_ok params args then
                           match fuel with
                           | 0 => Err OutOfFuel
                           | S f =>
                               if has_paste body then Err PasteNotModelled
                               else
                                 do body' <-
                                   substitute (expand f m)
                                     (combine params args) body;
                                 expand f m
                                   (splice (tk_ws t)
                                      (map (add_hide
                                              (tk_spelling t ::
                                               list_intersection (tk_hide t)
                                                 (tk_hide rp)))
                                         body')
                                      rest2)
                           end
                         else
                           Err (ArgumentCount (tk_spelling t) (length args)
                                  (length params))
                     end
                   else do r <- scan rest; Ok (t :: r)
               end
           end
         else do r <- scan rest; Ok (t :: r)
     end) ts.

(** ** String literals (translation phases 5 and 6) *)

Definition simple_escape (c : ascii) : option ascii :=
  if Ascii.eqb c dquote then Some dquote
  else if Ascii.eqb c backslash then Some backslash
  else if Ascii.eqb c "'"%char then Some "'"%char
  else if Ascii.eqb c "?"%char then Some "?"%char
  else if Ascii.eqb c "n"%char then Some "010"%char
  else if Ascii.eqb c "t"%char then Some "009"%char
  else if Ascii.eqb c "r"%char then Some "013"%char
  else if Ascii.eqb c "a"%char then Some "007"%char
  else if Ascii.eqb c "b"%char then Some "008"%char
  else if Ascii.eqb c "f"%char then Some "012"%char
  else if Ascii.eqb c "v"%char then Some "011"%char
  else None.

(** The characters denoted by what follows the opening quote. *)
Fixpoint literal_body (s : string) : option string :=
  match s with
  | EmptyString => None
  | String c rest =>
      if Ascii.eqb c dquote then
        match rest with EmptyString => Some EmptyString | _ => None end
      else if Ascii.eqb c backslash then
        match rest with
        | EmptyString => None
        | String e rest' =>
            match simple_escape e, literal_body rest' with
            | Some ch, Some v => Some (String ch v)
            | _, _ => None
            end
        end
      else
        match literal_body rest with
        | Some v => Some (String c v)
        | None => None
        end
  end.

Definition string_literal_value (t : pp_token) : option string :=
  match tk_kind t, tk_spelling t with
  | StringLiteral, String c rest =>
      if Ascii.eqb c dquote then literal_body rest else None
  | _, _ => None
  end.

(** Adjacent string literals make one string; anything else is not a string
    constant. *)
Fixpoint concat_literals (ts : list pp_token) : option string :=
  match ts with
  | [] => Some EmptyString
  | t :: rest =>
      match string_literal_value t, concat_literals rest with
      | Some v, Some w => Some (v +:+ w)
      | _, _ => None
      end
  end.

Definition string_constant (ts : list pp_token) : result string :=
  match ts with
  | [] => Err NotAStringConstant
  | _ => match concat_literals ts with
         | Some s => Ok s
         | None => Err NotAStringConstant
         end
  end.

(** ** Directives and the preprocessor state *)

#[local] Set Warnings "-register-all".

Inductive directive :=
| Define (name : string) (d : macro_def)
| Undef (name : string)
| Ifndef (name : string) (body : list directive)
| TextLines (ts : list pp_token).

(** The macro table and the tokens passed on to the compiler so far. *)
Record pp_state := State {
  macros : gmap string macro_def;
  output : list pp_token
}.

(** [#define] enters the definition in the table, in place of an earlier one
    of the same name (compilers warn about a differing redefinition and go on
    with the new one); [#undef] removes it; the lines under [#ifndef] are
    processed only where the name is not defined.  [TextLines ts] stands for
    a whole run of text lines, up to the next directive: a new-line is white
    space there, so that an invocation may begin on one line and go on on the
    next; the tokens are macro-replaced and passed on. *)
Fixpoint run_directive (fuel : nat) (d : directive) (st : pp_state)
  : result pp_state :=
  match d with
  | Define name def => Ok (State (<[name := def]> (macros st)) (output st))
  | Undef name => Ok (State (delete name (macros st)) (output st))
  | Ifndef name body =>
      match macros st !! name with
      | Some _ => Ok st
      | None =>
          (fix run_all (ds : list directive) (st : pp_state) : result pp_state :=
             match ds with
             | [] => Ok st
             | d :: more => do st' <- run_directive fuel d st; run_all more st'
             end) body st
      end
  | TextLines ts =>
      do ts' <- expand fuel (macros st) ts;
      Ok (State (macros st) (output st ++ ts'))
  end.

Fixpoint run_directives (fuel : nat) (ds : list directive) (st : pp_state)
  : result pp_state :=
  match ds with
  | [] => Ok st
  | d :: more => do st' <- run_directive fuel d st; run_directives fuel more st'
  end.

(** ** The header *)

Definition MSTR_EXPAND_def : macro_def :=
  FunctionLike ["tok"] [punct "#"; ident "tok"].

Definition MSTR_body : list pp_token :=
  [ident "MSTR_EXPAND"; punct "("; ident "tok"; punct ")"].

Definition MSTR_def : macro_def := FunctionLike ["tok"] MSTR_body.

Definition link_shared : list pp_token :=
  [ident "link"; punct ":"; ident "SHARED"].

Definition LSL_LIBTYPE_DART_def : macro_def := ObjectLike link_shared.

Definition LSL_LIBRARY_INFO_STR_def : macro_def :=
  ObjectLike
    [ident "MSTR"; punct "("; ident "LSL_VERSION_INFO"; punct ")";
     spaced (strlit "/");
     spaced (ident "MSTR"); punct "("; ident "LSL_LIBTYPE_DART"; punct ")"].

Definition lsl_lib_version_h : list directive :=
  [ Ifndef "LSL_LIBRARY_INFO_STR"
      [ Define "MSTR_EXPAND" MSTR_EXPAND_def;
        Define "MSTR" MSTR_def;
        Define "LSL_LIBTYPE_DART" LSL_LIBTYPE_DART_def;
        Define "LSL_LIBRARY_INFO_STR" LSL_LIBRARY_INFO_STR_def ] ].

(** [#include "lsl_lib_version.h"] *)
Definition include_header (fuel : nat) (st : pp_state) : result pp_state :=
  run_directives fuel lsl_lib_version_h st.

(** The macro table once the four [#define] lines have been processed. *)
Definition header_macros (m : gmap string macro_def) : gmap string macro_def :=
  <["LSL_LIBRARY_INFO_STR" := LSL_LIBRARY_INFO_STR_def]>
    (<["LSL_LIBTYPE_DART" := LSL_LIBTYPE_DART_def]>
       (<["MSTR" := MSTR_def]>
          (<["MSTR_EXPAND" := MSTR_EXPAND_def]> m))).

(** The string a use of [LSL_LIBRARY_INFO_STR] denotes under the macro table
    [m]. *)
Definition library_info_str (fuel : nat) (m : gmap string macro_def)
  : result string :=
  do ts <- expand fuel m [ident "LSL_LIBRARY_INFO_STR"];
  string_constant ts.



(** ** Translation units around the header *)

Definition initial_state : pp_state := State ∅ [].

(** [-DLSL_VERSION_INFO=v] on the command line. *)
Definition define_version (v : list pp_token) : directive :=
  Define "LSL_VERSION_INFO" (ObjectLike v).

(** The link-type token given another value after the header. *)
Definition redefine_libtype (t : list pp_token) : list directive :=
  [Undef "LSL_LIBTYPE_DART"; Define "LSL_LIBTYPE_DART" (ObjectLike t)].

(** The string [LSL_LIBRARY_INFO_STR] denotes at the end of the unit [ds]. *)
Definition info_str_of_unit (fuel : nat) (ds : list directive) : result string :=
  do st <- run_directives fuel ds initial_state;
  library_info_str fuel (macros st).

Definition v_1_2_3 : list pp_token := [number "1.2.3"].
Definition v_0_0_0_dev : list pp_token :=
  [number "0.0.0"; punct "-"; ident "dev"].

(** The header seen with [-DLSL_VERSION_INFO=1.2.3]. *)
Definition tu_1_2_3 : list directive :=
  define_version v_1_2_3 :: lsl_lib_version_h.

Definition m_1_2_3 : gmap string macro_def :=
  header_macros (<["LSL_VERSION_INFO" := ObjectLike v_1_2_3]> ∅).

Definition m_of_version (v : list pp_token) : gmap string macro_def :=
  header_macros (<["LSL_VERSION_INFO" := ObjectLike v]> ∅).

(** A build that supplies [LSL_LIBRARY_INFO_STR] itself. *)
Definition custom_build : pp_state :=
  State (<["LSL_LIBRARY_INFO_STR" := ObjectLike [strlit "custom"]]> ∅) [].

(** ** Tokens that pass through replacement unchanged *)

Definition header_names : list string :=
  ["MSTR_EXPAND"; "MSTR"; "LSL_LIBTYPE_DART"; "LSL_LIBRARY_INFO_STR"].

(** The three macros of the header that build the string are in force. *)
Definition formatter_defined (m : gmap string macro_def) : Prop :=
  m !! "MSTR_EXPAND" = Some MSTR_EXPAND_def /\
  m !! "MSTR" = Some MSTR_def /\
  m !! "LSL_LIBRARY_INFO_STR" = Some LSL_LIBRARY_INFO_STR_def.

(** Not a parenthesis or a comma: such a token never ends or splits a macro
    argument. *)
Definition flat (t : pp_token) : bool :=
  negb (is_punct "(" t || is_punct ")" t || is_punct "," t).

(** Not the name of a macro of [m]. *)
Definition passive (m : gmap string macro_def) (t : pp_token) : bool :=
  negb (is_ident t) || bool_decide (m !! tk_spelling t = None).

Fixpoint plain_string (s : string) : bool :=
  match s with
  | EmptyString => true
  | String c rest =>
      negb (Ascii.eqb c dquote || Ascii.eqb c backslash) && plain_string rest
  end.

(** Neither a string literal nor a character constant, and no quote or
    backslash in the spelling. *)
Definition unquoted (t : pp_token) : bool :=
  match tk_kind t with
  | StringLiteral | CharConstant => false
  | _ => plain_string (tk_spelling t)
  end.

(** A bare token: an identifier that names no macro, a number, or a
    punctuator other than parentheses, comma and the paste operator. *)
Definition bare (m : gmap string macro_def) (t : pp_token) : bool :=
  passive m t && flat t && negb (is_punct "##" t) && unquoted t.

(** What an identifier stands for as a macro argument: the replacement list
    of the object-like macro it names, else the identifier itself. *)
Definition meaning (m : gmap string macro_def) (n : string) : list pp_token :=
  match m !! n with
  | Some (ObjectLike body) => body
  | _ => [ident n]
  end.



(** A version with an empty macro in it. *)
Definition m_empty_inside : gmap string macro_def :=
  <["EMPTY" := ObjectLike []]>
    (m_of_version [number "1"; spaced (ident "EMPTY"); punct "+"; number "2"]).

(** The text of a token sequence: what [#] puts between the quotes. *)
Definition text_of (ts : list pp_token) : string := stringify_text true ts.

(** The tokens an argument name is replaced by. *)
Definition argument_tokens (m : gmap string macro_def) (n : string)
    (w : bool) (hs : list string) : list pp_token :=
  match m !! n with
  | Some (ObjectLike body) => rescanned w (n :: hs) body
  | _ => [Token Identifier n w hs]
  end.


(** ** Arguments with parentheses, quoted tokens, uses in a unit *)

(** [ts], read [d] parentheses deep, closes every parenthesis it opens and
    the [d] that are open, never closes one more, and has no comma outside
    parentheses: inside an invocation it is exactly one argument. *)
Fixpoint wellnested (d : nat) (ts : list pp_token) : bool :=
  match ts with
  | [] => Nat.eqb d 0
  | t :: rest =>
      if is_punct ")" t then
        match d with
        | 0 => false
        | S d' => wellnested d' rest
        end
      else if is_punct "(" t then wellnested (S d) rest
      else if (is_punct "," t && Nat.eqb d 0)%bool then false
      else wellnested d rest
  end.



(** The spelling of a token sequence as it stands in the source: the
    spellings, a single space where white space separated two tokens. *)
Fixpoint raw_text_from (first : bool) (ts : list pp_token) : string :=
  match ts with
  | [] => EmptyString
  | t :: rest =>
      (if (negb first && tk_ws t)%bool then " " else EmptyString)
        +:+ tk_spelling t +:+ raw_text_from false rest
  end.

Definition raw_text (ts : list pp_token) : string := raw_text_from true ts.

(** A token whose stringification can be read back: a string literal or
    character constant (whose quotes and backslashes [#] escapes), or a
    token without quote and backslash. *)
Definition decodable (t : pp_token) : bool :=
  match tk_kind t with
  | StringLiteral | CharConstant => true
  | _ => plain_string (tk_spelling t)
  end.









Definition MSTR_EXPAND_of (ts : list pp_token) : list pp_token :=
  ident "MSTR_EXPAND" :: punct "(" :: ts ++ [punct ")"].



(** ** The preprocessor at work *)

Example stringify_spacing :
  tk_spelling (stringify false [spaced (ident "a"); spaced (punct "+"); ident "b"])
  = quoted "a +b".
Proof. reflexivity. Qed.

Example stringify_escapes :
  tk_spelling (stringify false [strlit "x"])
  = String dquote
      (String backslash (String dquote
         ("x" +:+ String backslash (String dquote (String dquote EmptyString))))).
Proof. reflexivity. Qed.

Example nested_parentheses_are_one_argument :
  collect_args 0
    [ident "f"; punct "("; number "1"; punct ","; number "2"; punct ")";
     punct ")"; ident "z"]
  = Some ([[ident "f"; punct "("; number "1"; punct ","; number "2"; punct ")"]],
          punct ")", [ident "z"]).
Proof. reflexivity. Qed.

Example self_reference_stops :
  expand 3 (<["x" := ObjectLike [ident "x"; punct "+"; number "1"]]> ∅)
    [ident "x"]
  = Ok [Token Identifier "x" false ["x"]; Token Punctuator "+" false ["x"];
        Token PPNumber "1" false ["x"]].
Proof. vm_compute. reflexivity. Qed.

Example header_alone :
  info_str_of_unit 5 lsl_lib_version_h = Ok "LSL_VERSION_INFO/link:SHARED".
Proof. vm_compute. reflexivity. Qed.

Example header_needs_five_replacements :
  info_str_of_unit 4 tu_1_2_3 = Err OutOfFuel.
Proof. vm_compute. reflexivity. Qed.

(** A version with a comma in it is two arguments to [MSTR_EXPAND]: the one
    way the formatter itself can stop the build. *)
Example version_with_comma_is_rejected :
  info_str_of_unit 5
    (define_version [number "1"; punct ","; number "2"] :: lsl_lib_version_h)
  = Err (ArgumentCount "MSTR_EXPAND" 2 1).
Proof. vm_compute. reflexivity. Qed.

(** White space before a macro that is replaced by nothing stays between
    its neighbours. *)
Example space_before_empty_macro :
  library_info_str 6 m_empty_inside = Ok "1 +2/link:SHARED".
Proof. vm_compute. reflexivity. Qed.

(** Without the header the name is no string at all. *)
Example constant_without_header :
  info_str_of_unit 5 [] = Err NotAStringConstant.
Proof. vm_compute. reflexivity. Qed.

(** ** Equations of [expand] *)

Lemma splice_nil_r w ts : splice w ts [] = inherit_ws w ts.
Proof. destruct ts; [reflexivity |]. simpl. rewrite app_nil_r. reflexivity. Qed.

Lemma expand_nil fuel m : expand fuel m [] = Ok [].
Proof. destruct fuel; reflexivity. Qed.

Lemma expand_skip fuel m t rest :
  replaceable t = false ->
  expand fuel m (t :: rest) = do r <- expand fuel m rest; Ok (t :: r).
Proof. intros H. destruct fuel; simpl; rewrite H; reflexivity. Qed.

Lemma expand_undefined fuel m t rest :
  m !! tk_spelling t = None ->
  expand fuel m (t :: rest) = do r <- expand fuel m rest; Ok (t :: r).
Proof.
  intros H.
  destruct fuel; simpl; rewrite H; destruct (replaceable t); reflexivity.
Qed.

Lemma expand_passive fuel m t rest :
  passive m t = true ->
  expand fuel m (t :: rest) = do r <- expand fuel m rest; Ok (t :: r).
Proof.
  unfold passive. intros H. apply orb_true_iff in H as [H | H].
  - apply expand_skip. unfold replaceable.
    apply negb_true_iff in H. rewrite H. reflexivity.
  - apply expand_undefined. apply bool_decide_eq_true in H. exact H.
Qed.

Lemma expand_object fuel m t rest body :
  replaceable t = true ->
  m !! tk_spelling t = Some (ObjectLike body) ->
  has_paste body = false ->
  expand (S fuel) m (t :: rest) =
  expand fuel m
    (splice (tk_ws t) (map (add_hide (tk_spelling t :: tk_hide t)) body) rest).
Proof. intros Hr Hm Hp. simpl. rewrite Hr, Hm, Hp. reflexivity. Qed.

Lemma expand_function fuel m t lp rest1 params body args rp rest2 :
  replaceable t = true ->
  m !! tk_spelling t = Some (FunctionLike params body) ->
  is_punct "(" lp = true ->
  collect_args 0 rest1 = Some (args, rp, rest2) ->
  arity_ok params args = true ->
  has_paste body = false ->
  expand (S fuel) m (t :: lp :: rest1) =
  do body' <- substitute (expand fuel m) (combine params args) body;
  expand fuel m
    (splice (tk_ws t)
       (map (add_hide
               (tk_spelling t :: list_intersection (tk_hide t) (tk_hide rp)))
          body')
       rest2).
Proof.
  intros Hr Hm Hl Hc Ha Hp. simpl.
  rewrite Hr, Hm, Hl, Hc, Ha, Hp. reflexivity.
Qed.

(** A line of passive tokens is left as it is, whatever the fuel. *)
Lemma expand_all_passive fuel m ts :
  forallb (passive m) ts = true -> expand fuel m ts = Ok ts.
Proof.
  induction ts as [| t ts IH]; intros H.
  - apply expand_nil.
  - simpl in H. apply andb_true_iff in H as [Ht Hts].
    rewrite expand_passive by exact Ht. rewrite IH by exact Hts. reflexivity.
Qed.

(** ** Hide sets and spacing do not change what a token is *)

Lemma flat_add_hide hs t : flat (add_hide hs t) = flat t.
Proof. reflexivity. Qed.

Lemma flat_set_ws w t : flat (set_ws w t) = flat t.
Proof. reflexivity. Qed.

Lemma forallb_map_same {A} (p : A -> bool) (g : A -> A) (l : list A) :
  (forall a, p (g a) = p a) -> forallb p (map g l) = forallb p l.
Proof.
  intros Hg. induction l as [| a l IH]; simpl; [reflexivity |].
  rewrite Hg, IH. reflexivity.
Qed.

Lemma forallb_inherit_ws (p : pp_token -> bool) w ts :
  (forall t, p (set_ws w t) = p t) ->
  forallb p (inherit_ws w ts) = forallb p ts.
Proof.
  intros Hp. destruct ts as [| t ts]; simpl; [reflexivity |].
  rewrite Hp. reflexivity.
Qed.

Lemma forallb_rescanned (p : pp_token -> bool) w hs ts :
  (forall t, p (set_ws w t) = p t) ->
  (forall t, p (add_hide hs t) = p t) ->
  forallb p (rescanned w hs ts) = forallb p ts.
Proof.
  intros Hw Hh. unfold rescanned.
  rewrite forallb_inherit_ws by exact Hw.
  apply forallb_map_same. exact Hh.
Qed.

Lemma stringify_text_add_hide first hs ts :
  stringify_text first (map (add_hide hs) ts) = stringify_text first ts.
Proof.
  revert first. induction ts as [| t ts IH]; intros first; simpl;
    [reflexivity |].
  rewrite IH. reflexivity.
Qed.

Lemma text_of_inherit_ws w ts : text_of (inherit_ws w ts) = text_of ts.
Proof. destruct ts; reflexivity. Qed.

Lemma text_of_rescanned w hs ts : text_of (rescanned w hs ts) = text_of ts.
Proof.
  unfold rescanned. rewrite text_of_inherit_ws.
  apply stringify_text_add_hide.
Qed.

(** ** Arguments made of flat tokens *)

Lemma collect_args_flat ts rp rest :
  forallb flat ts = true ->
  is_punct ")" rp = true ->
  collect_args 0 (ts ++ rp :: rest) = Some ([ts], rp, rest).
Proof.
  intros Hts Hrp. induction ts as [| t ts IH]; simpl.
  - rewrite Hrp. reflexivity.
  - simpl in Hts. apply andb_true_iff in Hts as [Ht Hts].
    unfold flat in Ht. apply negb_true_iff in Ht.
    apply orb_false_iff in Ht as [Ht Hcomma].
    apply orb_false_iff in Ht as [Hl Hr].
    rewrite Hr, Hl, Hcomma. simpl. rewrite IH by exact Hts. reflexivity.
Qed.

(** ** The value of a literal made by [#] *)

Lemma plain_string_app a b :
  plain_string (a +:+ b) = plain_string a && plain_string b.
Proof.
  induction a as [| c a IH]; simpl; [reflexivity |].
  rewrite IH. apply andb_assoc.
Qed.

Lemma literal_body_plain s :
  plain_string s = true ->
  literal_body (s +:+ String dquote EmptyString) = Some s.
Proof.
  induction s as [| c s IH]; simpl; intros H; [reflexivity |].
  apply andb_true_iff in H as [Hc Hs].
  apply negb_true_iff in Hc. apply orb_false_iff in Hc as [Hq Hb].
  rewrite Hq, Hb, IH by exact Hs. reflexivity.
Qed.

Lemma plain_stringify_text first ts :
  forallb unquoted ts = true -> plain_string (stringify_text first ts) = true.
Proof.
  revert first. induction ts as [| t ts IH]; intros first H; simpl;
    [reflexivity |].
  simpl in H. apply andb_true_iff in H as [Ht Hts].
  rewrite !plain_string_app, IH by exact Hts.
  assert (plain_string (stringify_token t) = true) as ->.
  { unfold unquoted in Ht. unfold stringify_token.
    destruct (tk_kind t); try discriminate; exact Ht. }
  destruct (negb first && tk_ws t); reflexivity.
Qed.

Lemma append_empty_r (s : string) : s +:+ EmptyString = s.
Proof.
  induction s as [| c s IH]; [reflexivity |].
  change (String c (s +:+ EmptyString) = String c s). rewrite IH. reflexivity.
Qed.

(** ** The two stringification macros *)

Arguments expand : simpl never.

Lemma substitute_MSTR_EXPAND g arg :
  substitute g (combine ["tok"] [arg]) [punct "#"; ident "tok"]
  = Ok [stringify false arg].
Proof. reflexivity. Qed.

Lemma substitute_MSTR (g : list pp_token -> result (list pp_token)) arg ts :
  g arg = Ok ts ->
  substitute g (combine ["tok"] [arg]) MSTR_body
  = Ok (ident "MSTR_EXPAND" :: punct "(" :: inherit_ws false ts ++ [punct ")"]).
Proof.
  intros H. simpl. rewrite H. cbn [bind].
  destruct ts; reflexivity.
Qed.

Lemma replaceable_ident s w hs :
  s ∉ hs -> replaceable (Token Identifier s w hs) = true.
Proof.
  intros H. unfold replaceable. simpl.
  rewrite bool_decide_eq_false_2 by exact H. reflexivity.
Qed.

(** [MSTR_EXPAND(ts)] becomes the literal spelling [ts]; the tokens of [ts]
    are not replaced, whatever they name. *)
Lemma expand_MSTR_EXPAND fuel m w hs lp ts rp rest :
  m !! "MSTR_EXPAND" = Some MSTR_EXPAND_def ->
  "MSTR_EXPAND" ∉ hs ->
  is_punct "(" lp = true ->
  forallb flat ts = true ->
  is_punct ")" rp = true ->
  exists lit,
    tk_kind lit = StringLiteral /\
    tk_spelling lit = quoted (text_of ts) /\
    expand (S fuel) m
      (Token Identifier "MSTR_EXPAND" w hs :: lp :: ts ++ rp :: rest)
    = do r <- expand fuel m rest; Ok (lit :: r).
Proof.
  intros Hm Hhs Hlp Hts Hrp.
  eexists. split; [| split]; cycle 2.
  - erewrite expand_function;
      [ | apply replaceable_ident; exact Hhs
        | exact Hm
        | exact Hlp
        | apply collect_args_flat; [exact Hts | exact Hrp]
        | reflexivity
        | reflexivity ].
    rewrite substitute_MSTR_EXPAND. simpl.
    apply expand_skip. reflexivity.
  - reflexivity.
  - reflexivity.
Qed.

(** [MSTR(a)] becomes the literal spelling the complete replacement of [a]:
    the argument is replaced before [MSTR_EXPAND] applies [#] to it. *)
Lemma expand_MSTR fuel m w hs lp a rp rest ts :
  m !! "MSTR_EXPAND" = Some MSTR_EXPAND_def ->
  m !! "MSTR" = Some MSTR_def ->
  "MSTR" ∉ hs ->
  "MSTR_EXPAND" ∉ hs ->
  is_punct "(" lp = true ->
  flat a = true ->
  is_punct ")" rp = true ->
  expand (S fuel) m [a] = Ok ts ->
  forallb flat ts = true ->
  exists lit,
    tk_kind lit = StringLiteral /\
    tk_spelling lit = quoted (text_of ts) /\
    expand (S (S fuel)) m (Token Identifier "MSTR" w hs :: lp :: a :: rp :: rest)
    = do r <- expand fuel m rest; Ok (lit :: r).
Proof.
  intros Hme Hm Hhs Hhs' Hlp Ha Hrp Harg Hts.
  set (hs1 := "MSTR" :: list_intersection hs (tk_hide rp)).
  destruct (expand_MSTR_EXPAND fuel m w (list_union hs1 []) (add_hide hs1 (punct "("))
              (map (add_hide hs1) (inherit_ws false ts))
              (add_hide hs1 (punct ")")) rest)
    as (lit & Hk & Hs & He).
  - exact Hme.
  - unfold hs1. rewrite list_elem_of_union.
    intros [Hin | Hin]; [| inversion Hin].
    apply elem_of_cons in Hin as [Heq | Hin]; [discriminate |].
    apply list_elem_of_intersection in Hin as [Hin _]. contradiction.
  - reflexivity.
  - rewrite forallb_map_same by apply flat_add_hide.
    rewrite forallb_inherit_ws by apply flat_set_ws. exact Hts.
  - reflexivity.
  - exists lit. split; [exact Hk | split].
    + rewrite Hs. f_equal. unfold text_of.
      rewrite stringify_text_add_hide. apply text_of_inherit_ws.
    + erewrite expand_function;
        [ | apply replaceable_ident; exact Hhs
          | exact Hm
          | exact Hlp
          | apply (collect_args_flat [a]);
              [simpl; rewrite Ha; reflexivity | exact Hrp]
          | reflexivity
          | reflexivity ].
      fold MSTR_body. rewrite (substitute_MSTR _ _ _ Harg).
      simpl. rewrite map_app, <- app_assoc. simpl.
      exact He.
Qed.

(** ** The arguments [LSL_VERSION_INFO] and [LSL_LIBTYPE_DART] *)

Lemma bare_passive m t : bare m t = true -> passive m t = true.
Proof.
  unfold bare. intros H.
  apply andb_true_iff in H as [H _]. apply andb_true_iff in H as [H _].
  apply andb_true_iff in H as [H _]. exact H.
Qed.

Lemma bare_flat m t : bare m t = true -> flat t = true.
Proof.
  unfold bare. intros H.
  apply andb_true_iff in H as [H _]. apply andb_true_iff in H as [H _].
  apply andb_true_iff in H as [_ H]. exact H.
Qed.

Lemma bare_not_paste m t : bare m t = true -> is_punct "##" t = false.
Proof.
  unfold bare. intros H.
  apply andb_true_iff in H as [H _]. apply andb_true_iff in H as [_ H].
  apply negb_true_iff in H. exact H.
Qed.

Lemma bare_unquoted m t : bare m t = true -> unquoted t = true.
Proof.
  unfold bare. intros H. apply andb_true_iff in H as [_ H]. exact H.
Qed.

Lemma forallb_weaken {A} (p q : A -> bool) (l : list A) :
  (forall a, p a = true -> q a = true) ->
  forallb p l = true -> forallb q l = true.
Proof.
  intros Hpq. induction l as [| a l IH]; simpl; [reflexivity |].
  intros H. apply andb_true_iff in H as [Ha Hl].
  rewrite (Hpq a Ha), (IH Hl). reflexivity.
Qed.

Lemma bare_has_no_paste m ts :
  forallb (bare m) ts = true -> has_paste ts = false.
Proof.
  unfold has_paste. induction ts as [| t ts IH]; simpl; [reflexivity |].
  intros H. apply andb_true_iff in H as [Ht Hts].
  rewrite (bare_not_paste m t Ht), (IH Hts). reflexivity.
Qed.

Lemma text_of_argument_tokens m n w hs :
  text_of (argument_tokens m n w hs) = text_of (meaning m n).
Proof.
  unfold argument_tokens, meaning.
  destruct (m !! n) as [[body | params body] |]; try reflexivity.
  apply text_of_rescanned.
Qed.

Lemma argument_tokens_flat m n w hs :
  forallb (bare m) (meaning m n) = true ->
  forallb flat (argument_tokens m n w hs) = true.
Proof.
  unfold argument_tokens, meaning.
  destruct (m !! n) as [[body | params body] |]; intros H; try reflexivity.
  rewrite forallb_rescanned by reflexivity.
  exact (forallb_weaken _ _ _ (bare_flat m) H).
Qed.

Lemma expand_argument_name fuel m n w hs :
  n ∉ hs ->
  forallb (bare m) (meaning m n) = true ->
  expand (S fuel) m [Token Identifier n w hs] = Ok (argument_tokens m n w hs).
Proof.
  intros Hn. unfold argument_tokens, meaning.
  destruct (m !! n) as [[body | params body] |] eqn:Hm; intros H.
  - erewrite expand_object;
      [ | apply replaceable_ident; exact Hn
        | exact Hm
        | exact (bare_has_no_paste m body H) ].
    rewrite splice_nil_r. apply expand_all_passive.
    change (forallb (passive m) (rescanned w (n :: hs) body) = true).
    rewrite forallb_rescanned by reflexivity.
    exact (forallb_weaken _ _ _ (bare_passive m) H).
  - simpl in H. unfold bare, passive in H. simpl in H. rewrite Hm in H.
    discriminate H.
  - rewrite expand_undefined by exact Hm. rewrite expand_nil. reflexivity.
Qed.

(** [MSTR(n)] for an argument name [n] with a bare meaning. *)
Lemma expand_MSTR_name fuel m w hs hl hn hr n rest :
  m !! "MSTR_EXPAND" = Some MSTR_EXPAND_def ->
  m !! "MSTR" = Some MSTR_def ->
  "MSTR" ∉ hs ->
  "MSTR_EXPAND" ∉ hs ->
  n ∉ hn ->
  forallb (bare m) (meaning m n) = true ->
  exists lit,
    tk_kind lit = StringLiteral /\
    tk_spelling lit = quoted (text_of (meaning m n)) /\
    expand (S (S fuel)) m
      (Token Identifier "MSTR" w hs :: Token Punctuator "(" false hl
       :: Token Identifier n false hn :: Token Punctuator ")" false hr :: rest)
    = do r <- expand fuel m rest; Ok (lit :: r).
Proof.
  intros Hme Hm Hhs Hhs' Hn Hbare.
  destruct (expand_MSTR fuel m w hs (Token Punctuator "(" false hl)
              (Token Identifier n false hn) (Token Punctuator ")" false hr)
              rest (argument_tokens m n false hn))
    as (lit & Hk & Hs & He); try assumption; try reflexivity.
  - apply expand_argument_name; assumption.
  - apply argument_tokens_flat. exact Hbare.
  - exists lit. rewrite <- (text_of_argument_tokens m n false hn).
    split; [exact Hk | split; [exact Hs | exact He]].
Qed.

Lemma string_literal_value_of t s :
  tk_kind t = StringLiteral ->
  tk_spelling t = quoted s ->
  plain_string s = true ->
  string_literal_value t = Some s.
Proof.
  intros Hk Hs Hp. unfold string_literal_value. rewrite Hk, Hs.
  unfold quoted. simpl. apply literal_body_plain. exact Hp.
Qed.

Lemma plain_text_of_meaning m n :
  forallb (bare m) (meaning m n) = true ->
  plain_string (text_of (meaning m n)) = true.
Proof.
  intros H. apply plain_stringify_text.
  exact (forallb_weaken _ _ _ (bare_unquoted m) H).
Qed.

(** ** The constant *)

(** With the header's three formatting macros in force and both argument
    names standing for bare tokens, the constant is the text of the first,
    a slash, and the text of the second. *)
Lemma library_info_str_bare fuel m :
  formatter_defined m ->
  forallb (bare m) (meaning m "LSL_VERSION_INFO") = true ->
  forallb (bare m) (meaning m "LSL_LIBTYPE_DART") = true ->
  library_info_str (5 + fuel) m
  = Ok (text_of (meaning m "LSL_VERSION_INFO") +:+ "/"
        +:+ text_of (meaning m "LSL_LIBTYPE_DART")).
Proof.
  intros (Hme & Hm & Hinfo) HV HT.
  unfold library_info_str.
  change (5 + fuel) with (S (S (S (S (S fuel))))).
  erewrite expand_object;
    [ | apply replaceable_ident; inversion 1 | exact Hinfo | reflexivity ].
  set (hs := list_union ["LSL_LIBRARY_INFO_STR"] []).
  assert (Hhs : forall x, x <> "LSL_LIBRARY_INFO_STR" -> x ∉ hs).
  { intros x Hx Hin. apply list_elem_of_union in Hin as [Hin | Hin];
      [| inversion Hin].
    apply elem_of_cons in Hin as [Hin | Hin]; [contradiction | inversion Hin]. }
  destruct (expand_MSTR_name fuel m true hs hs hs hs "LSL_LIBTYPE_DART" [])
    as (lit2 & Hk2 & Hs2 & He2); try assumption; try (apply Hhs; discriminate).
  destruct (expand_MSTR_name (S (S fuel)) m false hs hs hs hs "LSL_VERSION_INFO"
              [add_hide ["LSL_LIBRARY_INFO_STR"] (spaced (strlit "/"));
               Token Identifier "MSTR" true hs;
               Token Punctuator "(" false hs;
               Token Identifier "LSL_LIBTYPE_DART" false hs;
               Token Punctuator ")" false hs])
    as (lit1 & Hk1 & Hs1 & He1); try assumption; try (apply Hhs; discriminate).
  rewrite (expand_skip _ m (add_hide _ (spaced (strlit "/")))) in He1
    by reflexivity.
  rewrite He2, expand_nil in He1. simpl in He1.
  match goal with
  | |- bind ?e _ = _ => replace e with
      (Ok [lit1; add_hide ["LSL_LIBRARY_INFO_STR"] (spaced (strlit "/")); lit2]
       : result (list pp_token)) by (symmetry; exact He1)
  end.
  simpl.
  rewrite (string_literal_value_of lit1 _ Hk1 Hs1 (plain_text_of_meaning m _ HV)).
  rewrite (string_literal_value_of lit2 _ Hk2 Hs2 (plain_text_of_meaning m _ HT)).
  rewrite append_empty_r. reflexivity.
Qed.

(** ** Including the header *)

Lemma include_header_guarded fuel st :
  is_Some (macros st !! "LSL_LIBRARY_INFO_STR") ->
  include_header fuel st = Ok st.
Proof.
  intros [d Hd]. unfold include_header, lsl_lib_version_h. simpl.
  rewrite Hd. reflexivity.
Qed.

Lemma include_header_fresh fuel st :
  macros st !! "LSL_LIBRARY_INFO_STR" = None ->
  include_header fuel st = Ok (State (header_macros (macros st)) (output st)).
Proof.
  intros Hd. unfold include_header, lsl_lib_version_h. simpl.
  rewrite Hd. reflexivity.
Qed.




Lemma header_macros_guard m :
  header_macros m !! "LSL_LIBRARY_INFO_STR" = Some LSL_LIBRARY_INFO_STR_def.
Proof. unfold header_macros. simplify_map_eq. reflexivity. Qed.







(** * The claims *)






(** C3, the claim as stated fails on the header: with [LSL_VERSION_INFO]
    set to [1.2.3] the constant is ["1.2.3/link:SHARED"], since the header's
    link-type token is [link:SHARED], not [SHARED]. *)
Lemma C3_counterexample :
  info_str_of_unit 5 tu_1_2_3 = Ok "1.2.3/link:SHARED" /\
  info_str_of_unit 5 tu_1_2_3 <> Ok "1.2.3/SHARED".
Proof.
  assert (H : info_str_of_unit 5 tu_1_2_3 = Ok "1.2.3/link:SHARED")
    by (vm_compute; reflexivity).
  split; [exact H |]. rewrite H. discriminate.
Qed.

Lemma info_str_of_unit_bare k ds st :
  run_directives (5 + k) ds initial_state = Ok st ->
  formatter_defined (macros st) ->
  forallb (bare (macros st)) (meaning (macros st) "LSL_VERSION_INFO") = true ->
  forallb (bare (macros st)) (meaning (macros st) "LSL_LIBTYPE_DART") = true ->
  info_str_of_unit (5 + k) ds
  = Ok (text_of (meaning (macros st) "LSL_VERSION_INFO") +:+ "/"
        +:+ text_of (meaning (macros st) "LSL_LIBTYPE_DART")).
Proof.
  intros Hrun Hf HV HT. unfold info_str_of_unit. rewrite Hrun.
  cbn [bind]. apply library_info_str_bare; assumption.
Qed.

(** C3, amended. The formatter gives ["1.2.3/SHARED"] for the tokens [1.2.3]
    and [SHARED], and ["0.0.0-dev/STATIC"] for [0.0.0-dev] and [STATIC]; the
    header as it is, with [LSL_VERSION_INFO] set to [1.2.3], gives
    ["1.2.3/link:SHARED"]. *)
Theorem C3_examples :
  forall k : nat,
    info_str_of_unit (5 + k)
      (define_version v_1_2_3 :: lsl_lib_version_h
       ++ redefine_libtype [ident "SHARED"])
    = Ok "1.2.3/SHARED" /\
    info_str_of_unit (5 + k)
      (define_version v_0_0_0_dev :: lsl_lib_version_h
       ++ redefine_libtype [ident "STATIC"])
    = Ok "0.0.0-dev/STATIC" /\
    info_str_of_unit (5 + k) (define_version v_1_2_3 :: lsl_lib_version_h)
    = Ok "1.2.3/link:SHARED".
Proof.
  intros k. repeat split.
  - erewrite info_str_of_unit_bare;
      [ | reflexivity | vm_compute; auto | vm_compute; reflexivity
        | vm_compute; reflexivity ].
    vm_compute. reflexivity.
  - erewrite info_str_of_unit_bare;
      [ | reflexivity | vm_compute; auto | vm_compute; reflexivity
        | vm_compute; reflexivity ].
    vm_compute. reflexivity.
  - erewrite info_str_of_unit_bare;
      [ | reflexivity | vm_compute; auto | vm_compute; reflexivity
        | vm_compute; reflexivity ].
    vm_compute. reflexivity.
Qed.








Lemma not_header_name n :
  bool_decide (n ∈ header_names) = false -> n ∉ header_names.
Proof. intros H. apply bool_decide_eq_false in H. exact H. Qed.





(** C9. The header is guarded by [#ifndef LSL_LIBRARY_INFO_STR]: where that
    name is already defined the header changes nothing at all (no macro is
    defined or redefined and the earlier [LSL_LIBRARY_INFO_STR] stays), and
    processing the header twice is the same as processing it once. *)
Theorem C9_inclusion_is_idempotent :
  forall (fuel : nat) (st : pp_state),
    (is_Some (macros st !! "LSL_LIBRARY_INFO_STR") ->
     include_header fuel st = Ok st) /\
    (do st' <- include_header fuel st; include_header fuel st')
    = include_header fuel st.
Proof.
  intros fuel st. split; [apply include_header_guarded |].
  destruct (macros st !! "LSL_LIBRARY_INFO_STR") as [d |] eqn:Hg.
  - rewrite include_header_guarded by (rewrite Hg; eexists; reflexivity).
    cbn [bind].
    apply include_header_guarded. rewrite Hg. eexists; reflexivity.
  - rewrite include_header_fresh by exact Hg. cbn [bind].
    apply include_header_guarded. cbn [macros].
    rewrite header_macros_guard. eexists; reflexivity.
Qed.

Lemma C9_witness :
  include_header 0 custom_build = Ok custom_build /\
  macros custom_build !! "MSTR" = None.
Proof.
  split.
  - apply (proj1 (C9_inclusion_is_idempotent 0 custom_build)).
    eexists. vm_compute. reflexivity.
  - vm_compute. reflexivity.
Defined.

(** * Further properties of the header *)

(** ** Collecting arguments *)

Lemma is_punct_other a b t :
  is_punct a t = true -> a <> b -> is_punct b t = false.
Proof.
  unfold is_punct. destruct (tk_kind t); try discriminate.
  intros Ha Hab. apply String.eqb_eq in Ha. apply String.eqb_neq.
  rewrite Ha. exact Hab.
Qed.

Lemma collect_args_wellnested d ts rp rest :
  wellnested d ts = true ->
  is_punct ")" rp = true ->
  collect_args d (ts ++ rp :: rest) = Some ([ts], rp, rest).
Proof.
  intros Hts Hrp. revert d Hts.
  induction ts as [| t ts IH]; intros d Hts; simpl in *.
  - apply Nat.eqb_eq in Hts. subst d. rewrite Hrp. reflexivity.
  - destruct (is_punct ")" t) eqn:Hr.
    + destruct d as [| d']; [discriminate |]. simpl.
      rewrite (is_punct_other ")" "(" t Hr) by discriminate.
      rewrite (IH d' Hts).
      rewrite (is_punct_other ")" "," t Hr) by discriminate. reflexivity.
    + simpl. destruct (is_punct "(" t) eqn:Hl.
      * rewrite (IH (S d) Hts).
        rewrite (is_punct_other "(" "," t Hl) by discriminate. reflexivity.
      * destruct (is_punct "," t && Nat.eqb d 0) eqn:Hc; [discriminate |].
        rewrite (IH d Hts). reflexivity.
Qed.

Lemma flat_wellnested ts : forallb flat ts = true -> wellnested 0 ts = true.
Proof.
  induction ts as [| t ts IH]; simpl; [reflexivity |].
  intros H. apply andb_true_iff in H as [Ht Hts].
  unfold flat in Ht. apply negb_true_iff in Ht.
  apply orb_false_iff in Ht as [Ht Hcomma].
  apply orb_false_iff in Ht as [Hl Hr].
  rewrite Hr, Hl, Hcomma. simpl. exact (IH Hts).
Qed.






(** ** Reading back what [#] wrote *)

Lemma append_assoc (a b c : string) : (a +:+ b) +:+ c = a +:+ (b +:+ c).
Proof.
  induction a as [| x a IH]; [reflexivity |].
  change (String x ((a +:+ b) +:+ c) = String x (a +:+ (b +:+ c))).
  rewrite IH. reflexivity.
Qed.

Lemma literal_body_after_plain a x v :
  plain_string a = true ->
  literal_body x = Some v ->
  literal_body (a +:+ x) = Some (a +:+ v).
Proof.
  intros Ha Hx. induction a as [| c a IH]; [exact Hx |].
  simpl in Ha. apply andb_true_iff in Ha as [Hc Ha].
  apply negb_true_iff in Hc. apply orb_false_iff in Hc as [Hq Hb].
  change (String c a +:+ x) with (String c (a +:+ x)).
  simpl. rewrite Hq, Hb, (IH Ha). reflexivity.
Qed.

Lemma literal_body_after_escape a x v :
  literal_body x = Some v ->
  literal_body (escape a +:+ x) = Some (a +:+ v).
Proof.
  intros Hx. induction a as [| c a IH]; [exact Hx |].
  simpl. unfold escape_char.
  destruct (Ascii.eqb c dquote) eqn:Hq; simpl.
  - apply Ascii.eqb_eq in Hq. subst c.
    change (literal_body
              (String backslash (String dquote (escape a +:+ x)))
            = Some (String dquote (a +:+ v))).
    simpl. rewrite IH. reflexivity.
  - destruct (Ascii.eqb c backslash) eqn:Hb; simpl.
    + apply Ascii.eqb_eq in Hb. subst c.
      change (literal_body
                (String backslash (String backslash (escape a +:+ x)))
              = Some (String backslash (a +:+ v))).
      simpl. rewrite IH. reflexivity.
    + change (literal_body (String c (escape a +:+ x))
              = Some (String c (a +:+ v))).
      simpl. rewrite Hq, Hb, IH. reflexivity.
Qed.

Lemma literal_body_stringify_text first ts :
  forallb decodable ts = true ->
  literal_body (stringify_text first ts +:+ String dquote EmptyString)
  = Some (raw_text_from first ts).
Proof.
  revert first. induction ts as [| t ts IH]; intros first H; [reflexivity |].
  simpl in H. apply andb_true_iff in H as [Ht Hts].
  simpl. rewrite !append_assoc.
  apply literal_body_after_plain;
    [destruct (negb first && tk_ws t); reflexivity |].
  unfold decodable in Ht. unfold stringify_token.
  destruct (tk_kind t);
    solve [ apply literal_body_after_plain; [exact Ht | apply IH; exact Hts]
          | apply literal_body_after_escape; apply IH; exact Hts ].
Qed.

Lemma string_literal_value_decodable lit ts :
  tk_kind lit = StringLiteral ->
  tk_spelling lit = quoted (text_of ts) ->
  forallb decodable ts = true ->
  string_literal_value lit = Some (raw_text ts).
Proof.
  intros Hk Hs Hd. unfold string_literal_value. rewrite Hk, Hs.
  unfold quoted. simpl. apply literal_body_stringify_text. exact Hd.
Qed.

Lemma unquoted_decodable t : unquoted t = true -> decodable t = true.
Proof.
  unfold unquoted, decodable. destruct (tk_kind t); auto.
Qed.

Lemma raw_text_from_unquoted first ts :
  forallb unquoted ts = true ->
  raw_text_from first ts = stringify_text first ts.
Proof.
  revert first. induction ts as [| t ts IH]; intros first H; [reflexivity |].
  simpl in H. apply andb_true_iff in H as [Ht Hts].
  simpl. rewrite (IH false Hts). unfold stringify_token.
  unfold unquoted in Ht. destruct (tk_kind t); try discriminate; reflexivity.
Qed.



(** ** Replacement lists that rescanning leaves alone *)









(** ** The stringification macros on whole arguments *)

Lemma expand_MSTR_EXPAND_nested fuel m w hs lp ts rp rest :
  m !! "MSTR_EXPAND" = Some MSTR_EXPAND_def ->
  "MSTR_EXPAND" ∉ hs ->
  is_punct "(" lp = true ->
  wellnested 0 ts = true ->
  is_punct ")" rp = true ->
  exists lit,
    tk_kind lit = StringLiteral /\
    tk_spelling lit = quoted (text_of ts) /\
    expand (S fuel) m
      (Token Identifier "MSTR_EXPAND" w hs :: lp :: ts ++ rp :: rest)
    = do r <- expand fuel m rest; Ok (lit :: r).
Proof.
  intros Hm Hhs Hlp Hts Hrp.
  eexists. split; [| split]; cycle 2.
  - erewrite expand_function;
      [ | apply replaceable_ident; exact Hhs
        | exact Hm
        | exact Hlp
        | apply collect_args_wellnested; [exact Hts | exact Hrp]
        | reflexivity
        | reflexivity ].
    rewrite substitute_MSTR_EXPAND. simpl.
    apply expand_skip. reflexivity.
  - reflexivity.
  - reflexivity.
Qed.








(** ** X1: [MSTR_EXPAND] spells its argument as written *)

(** X1. [MSTR_EXPAND(ts)] is one string literal spelling [ts] exactly as
    written between the parentheses: nothing in [ts] is macro-replaced, even
    where its tokens name macros.  One replacement is all it takes. *)
Theorem X1_MSTR_EXPAND_spells_argument_as_written :
  forall (m : gmap string macro_def) (fuel : nat) (ts : list pp_token),
    m !! "MSTR_EXPAND" = Some MSTR_EXPAND_def ->
    wellnested 0 ts = true ->
    exists lit,
      expand (S fuel) m (MSTR_EXPAND_of ts) = Ok [lit] /\
      tk_kind lit = StringLiteral /\
      tk_spelling lit = quoted (text_of ts).
Proof.
  intros m fuel ts Hme Hts.
  destruct (expand_MSTR_EXPAND_nested fuel m false [] (punct "(") ts
              (punct ")") [] Hme)
    as (lit & Hk & Hs & He); try assumption; try reflexivity;
    try (intros Hin; inversion Hin).
  exists lit. rewrite expand_nil in He.
  split; [exact He | split; [exact Hk | exact Hs]].
Qed.

Lemma X1_witness :
  exists lit,
    expand 1 m_1_2_3
      (MSTR_EXPAND_of [ident "LSL_VERSION_INFO"; spaced (punct "+");
                       spaced (ident "MSTR"); punct "("; number "1";
                       punct ","; number "2"; punct ")"])
    = Ok [lit] /\
    tk_kind lit = StringLiteral /\
    tk_spelling lit = quoted "LSL_VERSION_INFO + MSTR(1,2)".
Proof.
  apply (X1_MSTR_EXPAND_spells_argument_as_written m_1_2_3 0
           [ident "LSL_VERSION_INFO"; spaced (punct "+");
            spaced (ident "MSTR"); punct "("; number "1";
            punct ","; number "2"; punct ")"]);
    vm_compute; reflexivity.
Defined.

(** ** X2: the literal made by [#] reads back as the argument *)

(** X2. The string denoted by the literal [#] makes is the spelling of the
    argument, character for character: the backslashes [#] puts before the
    quotes and backslashes of string literals and character constants are
    the ones the compiler takes away again. *)
Theorem X2_stringify_reads_back :
  forall (w : bool) (ts : list pp_token),
    forallb decodable ts = true ->
    string_literal_value (stringify w ts) = Some (raw_text ts).
Proof.
  intros w ts Hd.
  apply (string_literal_value_decodable (stringify w ts) ts);
    [reflexivity | reflexivity | exact Hd].
Qed.

Lemma X2_witness :
  string_literal_value
    (stringify false
       [ident "path"; spaced (punct "=");
        spaced (Token StringLiteral
                  (quoted ("C:" +:+ String backslash "dir")) false [])])
  = Some ("path = " +:+ quoted ("C:" +:+ String backslash "dir")).
Proof.
  apply (X2_stringify_reads_back false
           [ident "path"; spaced (punct "=");
            spaced (Token StringLiteral
                      (quoted ("C:" +:+ String backslash "dir")) false [])]).
  vm_compute. reflexivity.
Defined.

(** ** X3: [MSTR] on a whole argument *)



(** ** X4: quoted tokens, parentheses and self-reference in the version *)



(** ** X5: a comma in the version *)







(** ** X6: a constant supplied by the build *)

(** X6. Where the build already defines [LSL_LIBRARY_INFO_STR] as a string
    literal, the header leaves the state alone and the constant is the
    build's string; none of the header's macros is needed for it. *)
Theorem X6_build_supplied_constant_wins :
  forall (fuel : nat) (st : pp_state) (lit : pp_token) (s : string),
    macros st !! "LSL_LIBRARY_INFO_STR" = Some (ObjectLike [lit]) ->
    tk_kind lit = StringLiteral ->
    tk_spelling lit = quoted s ->
    plain_string s = true ->
    include_header fuel st = Ok st /\
    library_info_str (S fuel) (macros st) = Ok s.
Proof.
  intros fuel st lit s Hg Hk Hs Hp. split.
  - apply include_header_guarded. rewrite Hg. eexists; reflexivity.
  - unfold library_info_str.
    assert (Hnp : has_paste [lit] = false).
    { unfold has_paste, is_punct. simpl. rewrite Hk. reflexivity. }
    erewrite expand_object;
      [ | apply replaceable_ident; inversion 1 | exact Hg | exact Hnp ].
    cbn [map splice inherit_ws app].
    rewrite expand_skip
      by (unfold replaceable, is_ident; simpl; rewrite Hk; reflexivity).
    rewrite expand_nil. cbn [bind].
    unfold string_constant. cbn [concat_literals].
    match goal with
    | |- context [string_literal_value ?t] =>
        rewrite (string_literal_value_of t s Hk Hs Hp)
    end.
    rewrite append_empty_r. reflexivity.
Qed.

Lemma X6_witness :
  include_header 0 custom_build = Ok custom_build /\
  library_info_str 1 (macros custom_build) = Ok "custom".
Proof.
  apply (X6_build_supplied_constant_wins 0 custom_build (strlit "custom")
           "custom");
    vm_compute; reflexivity.
Defined.

(** ** X7: the header and other definitions *)

Lemma header_macros_insert m n d :
  n ∉ header_names ->
  header_macros (<[n := d]> m) = <[n := d]> (header_macros m).
Proof.
  intros Hn. unfold header_macros.
  assert (H1 : n <> "MSTR_EXPAND")
    by (intros ->; apply Hn; repeat constructor).
  assert (H2 : n <> "MSTR") by (intros ->; apply Hn; repeat constructor).
  assert (H3 : n <> "LSL_LIBTYPE_DART")
    by (intros ->; apply Hn; repeat constructor).
  assert (H4 : n <> "LSL_LIBRARY_INFO_STR")
    by (intros ->; apply Hn; repeat constructor).
  rewrite (insert_insert_ne _ "MSTR_EXPAND" n) by congruence.
  rewrite (insert_insert_ne _ "MSTR" n) by congruence.
  rewrite (insert_insert_ne _ "LSL_LIBTYPE_DART" n) by congruence.
  rewrite (insert_insert_ne _ "LSL_LIBRARY_INFO_STR" n) by congruence.
  reflexivity.
Qed.

Lemma header_macros_delete m n :
  n ∉ header_names ->
  header_macros (delete n m) = delete n (header_macros m).
Proof.
  intros Hn. unfold header_macros.
  assert (H1 : n <> "MSTR_EXPAND")
    by (intros ->; apply Hn; repeat constructor).
  assert (H2 : n <> "MSTR") by (intros ->; apply Hn; repeat constructor).
  assert (H3 : n <> "LSL_LIBTYPE_DART")
    by (intros ->; apply Hn; repeat constructor).
  assert (H4 : n <> "LSL_LIBRARY_INFO_STR")
    by (intros ->; apply Hn; repeat constructor).
  rewrite !delete_insert_ne by congruence. reflexivity.
Qed.

Lemma run_header fuel st :
  run_directives fuel lsl_lib_version_h st
  = Ok (match macros st !! "LSL_LIBRARY_INFO_STR" with
        | Some _ => st
        | None => State (header_macros (macros st)) (output st)
        end).
Proof.
  destruct (macros st !! "LSL_LIBRARY_INFO_STR") eqn:Hg.
  - apply include_header_guarded. rewrite Hg. eexists; reflexivity.
  - apply include_header_fresh. exact Hg.
Qed.

Lemma run_directives_app fuel ds1 ds2 st :
  run_directives fuel (ds1 ++ ds2) st
  = do st' <- run_directives fuel ds1 st; run_directives fuel ds2 st'.
Proof.
  revert st. induction ds1 as [| d ds1 IH]; intros st; [reflexivity |].
  simpl. destruct (run_directive fuel d st) as [st' | e]; [| reflexivity].
  cbn [bind]. apply IH.
Qed.

(** X7. The header touches only its own four names, so it commutes with the
    [#define] or [#undef] of any other macro: the version, say, may be
    defined before the header is included or after it, with the same macro
    table either way. *)
Theorem X7_header_commutes_with_other_macros :
  forall (fuel : nat) (st : pp_state) (n : string) (d : macro_def),
    n ∉ header_names ->
    run_directives fuel (Define n d :: lsl_lib_version_h) st
    = run_directives fuel (lsl_lib_version_h ++ [Define n d]) st /\
    run_directives fuel (Undef n :: lsl_lib_version_h) st
    = run_directives fuel (lsl_lib_version_h ++ [Undef n]) st.
Proof.
  intros fuel st n d Hn.
  assert (Hg : n <> "LSL_LIBRARY_INFO_STR")
    by (intros ->; apply Hn; repeat constructor).
  rewrite !run_directives_app, !run_header. cbn [bind].
  change (run_directives fuel (Define n d :: lsl_lib_version_h) st)
    with (run_directives fuel lsl_lib_version_h
            (State (<[n := d]> (macros st)) (output st))).
  change (run_directives fuel (Undef n :: lsl_lib_version_h) st)
    with (run_directives fuel lsl_lib_version_h
            (State (delete n (macros st)) (output st))).
  rewrite !run_header. cbn [macros output].
  rewrite lookup_insert_ne, lookup_delete_ne by congruence.
  destruct (macros st !! "LSL_LIBRARY_INFO_STR") as [g |]; simpl.
  - split; reflexivity.
  - rewrite header_macros_insert, header_macros_delete by exact Hn.
    split; reflexivity.
Qed.

Lemma X7_witness :
  run_directives 0 (define_version v_1_2_3 :: lsl_lib_version_h) initial_state
  = run_directives 0 (lsl_lib_version_h ++ [define_version v_1_2_3])
      initial_state.
Proof.
  apply (proj1 (X7_header_commutes_with_other_macros 0 initial_state
                  "LSL_VERSION_INFO" (ObjectLike v_1_2_3)
                  (not_header_name "LSL_VERSION_INFO" eq_refl))).
Defined.

(** ** X8: the constant is replaced where it is used *)





(** ** X9: what a use passes on to the compiler *)



(** ** X10: a version defined through another macro *)


